(** * Md2Option: the option of an [<md2-select>]

    A shallow embedding of the [Md2Option] component class and of the
    module-level counter its ids are drawn from, followed by the
    properties of its selection, activation and disabling logic.

    Objects live in a store and are named by references, as in the
    source: an event's [source] is a reference to the option that emitted
    it, and an option's [group] is a reference to an optgroup that other
    options may share. *)

From Stdlib Require Import NArith String DecimalString DecimalN.
From stdpp Require Import base option list strings.

Local Open Scope N_scope.

(** ** References and the values of a JS number used as a counter *)

(** A reference to an object: its position in the store of its class.
    Stores only grow (an object is never observed to disappear). *)
Abbreviation ref := nat (only parsing).

(** [Number.MAX_SAFE_INTEGER], 2^53 - 1: up to it, adding one to a JS
    number is exact. *)
Definition MAX_SAFE_INTEGER : N := 2 ^ 53 - 1.

(** The value [x + 1] stored back by [x++] when the JS number [x] holds
    an integer between 0 and 2^53, the only values a counter that starts
    at 0 and is only ever incremented can hold: the sum is exact up to
    2^53, and 2^53 + 1, which no double represents, rounds (ties to
    even) back to 2^53. *)
Definition incr (x : N) : N :=
  if x <=? MAX_SAFE_INTEGER then x + 1 else x.

(** [`${n}`] for a non-negative integer below 10^21: its decimal digits. *)
Definition Number_toString (n : N) : string :=
  NilEmpty.string_of_uint (N.to_uint n).

(** ** Md2Optgroup *)

Module Md2Optgroup.

(** Modelled from the spec: the class [Md2Optgroup] is imported from
    [./optgroup], which is not among the sources. The spec describes it
    as "a named collection of options that can be disabled as a unit";
    the option reads nothing of it but [disabled], a boolean flag. *)
Record t := mk { disabled : bool }.

End Md2Optgroup.

(** ** Md2OptionSelectionChange *)

(** Event object emitted by an option when selected or deselected. The
    class declares both fields [public] and neither [readonly]: whoever
    holds an event can assign them (see [write_field] below). *)
Record Md2OptionSelectionChange := {
  source : ref;
  isUserInput : bool
}.

(** [constructor(public source: Md2Option, public isUserInput = false)]:
    an argument left out ([None]) takes the default. *)
Definition new_Md2OptionSelectionChange
    (source : ref) (isUserInput : option bool) : Md2OptionSelectionChange :=
  {| source := source; isUserInput := default false isUserInput |}.

(** An assignment to a field of an event: [event.source = r] or
    [event.isUserInput = b]. *)
Inductive field_write :=
| WriteSource (r : ref)
| WriteIsUserInput (b : bool).

Definition write_field
    (w : field_write) (e : Md2OptionSelectionChange) : Md2OptionSelectionChange :=
  match w with
  | WriteSource r => {| source := r; isUserInput := isUserInput e |}
  | WriteIsUserInput b => {| source := source e; isUserInput := b |}
  end.

(** An [EventEmitter] is modelled by the sequence of values emitted
    through it so far, oldest first; who subscribes to it is the host's
    business. *)
Definition EventEmitter (A : Type) := list A.

Definition emit {A} (x : A) (e : EventEmitter A) : EventEmitter A := e ++ [x].

(** ** Md2Option *)

(** What the class takes from outside its file: the type [any] of
    [value] and of what the [disabled] setter accepts, with the value a
    field holds before it is assigned; [coerceBooleanProperty], imported
    from [../core/coercion]; the DOM element an [ElementRef] wraps; and
    the key codes [ENTER] and [SPACE], imported from
    [../core/keyboard/keycodes]. None of these files is among the
    sources, so the class is read against any choice of them. *)
Class Host := {
  any : Type;
  undefined : any;
  coerceBooleanProperty : any -> bool;
  HTMLElement : Type;
  ENTER : N;
  SPACE : N
}.

(** A host to run examples on: values are booleans or [undefined], and
    the key codes are the DOM's, 13 and 32. *)
Definition example_host : Host := {|
  any := option bool;
  undefined := None;
  coerceBooleanProperty := default false;
  HTMLElement := unit;
  ENTER := 13;
  SPACE := 32
|}.

Module Md2Option.

Section Md2Option.

Context `{Host}.

Record ElementRef := { nativeElement : HTMLElement }.

Record KeyboardEvent := { keyCode : N }.

Record t := mk {
  _selected : bool;
  _active : bool;
  _disabled : bool;
  _id : string;
  multiple : bool;
  value : any;
  onSelectionChange : EventEmitter Md2OptionSelectionChange;
  group : option ref;
  _element : ElementRef
}.

(** The state of a process that has loaded the module: the module-level
    counter and the objects created so far. *)
Record Process := {
  _uniqueIdCounter : N;
  optgroups : list Md2Optgroup.t;
  options : list t
}.

(** The module as loaded: [let _uniqueIdCounter = 0], nothing created. *)
Definition initial : Process :=
  {| _uniqueIdCounter := 0; optgroups := []; options := [] |}.

(** *** Field assignments *)

Definition set_selected (b : bool) (o : t) : t :=
  mk b (_active o) (_disabled o) (_id o) (multiple o) (value o)
     (onSelectionChange o) (group o) (_element o).

Definition set_active (b : bool) (o : t) : t :=
  mk (_selected o) b (_disabled o) (_id o) (multiple o) (value o)
     (onSelectionChange o) (group o) (_element o).

Definition set_disabled (b : bool) (o : t) : t :=
  mk (_selected o) (_active o) b (_id o) (multiple o) (value o)
     (onSelectionChange o) (group o) (_element o).

Definition set_multiple (b : bool) (o : t) : t :=
  mk (_selected o) (_active o) (_disabled o) (_id o) b (value o)
     (onSelectionChange o) (group o) (_element o).

Definition set_value (v : any) (o : t) : t :=
  mk (_selected o) (_active o) (_disabled o) (_id o) (multiple o) v
     (onSelectionChange o) (group o) (_element o).

Definition set_onSelectionChange
    (e : EventEmitter Md2OptionSelectionChange) (o : t) : t :=
  mk (_selected o) (_active o) (_disabled o) (_id o) (multiple o) (value o)
     e (group o) (_element o).

(** *** Getters *)

Definition id (o : t) : string := _id o.

Definition selected (o : t) : bool := _selected o.

Definition active (o : t) : bool := _active o.

(** The optgroup [this.group] refers to, if the option was given one. *)
Definition owning_group (p : Process) (o : t) : option Md2Optgroup.t :=
  g ← group o; optgroups p !! g.

(** [(this.group && this.group.disabled) || this._disabled] *)
Definition disabled (p : Process) (o : t) : bool :=
  match owning_group p o with
  | Some g => Md2Optgroup.disabled g
  | None => false
  end || _disabled o.

(** *** Methods

    Each method is given as what a call does to the fields of the
    receiver; [this] is the receiver's reference and [p] the state of
    the process when the call starts, through which it reads its group.
    [focus()] and the getter [viewValue] only reach into the host DOM
    element and read or write no field of the option. *)

(** [this.onSelectionChange.emit(new Md2OptionSelectionChange(this, isUserInput))],
    with [isUserInput = false] when the argument is left out. *)
Definition _emitSelectionChangeEvent
    (this : ref) (isUserInput : option bool) (o : t) : t :=
  let isUserInput := default false isUserInput in
  set_onSelectionChange
    (emit (new_Md2OptionSelectionChange this (Some isUserInput))
          (onSelectionChange o)) o.

Definition select (this : ref) (o : t) : t :=
  _emitSelectionChangeEvent this None (set_selected true o).

Definition deselect (this : ref) (o : t) : t :=
  _emitSelectionChangeEvent this None (set_selected false o).

Definition setActiveStyles (o : t) : t := set_active true o.

Definition setInactiveStyles (o : t) : t := set_active false o.

Definition _selectViaInteraction (this : ref) (p : Process) (o : t) : t :=
  if negb (disabled p o) then
    _emitSelectionChangeEvent this (Some true)
      (set_selected (if multiple o then negb (_selected o) else true) o)
  else o.

Definition _handleKeydown
    (this : ref) (p : Process) (event : KeyboardEvent) (o : t) : t :=
  if (keyCode event =? ENTER) || (keyCode event =? SPACE)
  then _selectViaInteraction this p o
  else o.

Definition _getTabIndex (p : Process) (o : t) : string :=
  if disabled p o then "-1" else "0".

Definition _getHostElement (o : t) : HTMLElement := nativeElement (_element o).

(** [set disabled(value: any)] *)
Definition disabled_setter (value : any) (o : t) : t :=
  set_disabled (coerceBooleanProperty value) o.

(** *** Calls on an option in the store *)

(** What the outside can do to an option: call a method, or assign one
    of its writable properties. [focus()] is among the calls although it
    moves nothing in this state: what it does, it does to the DOM. *)
Inductive member :=
| Select
| Deselect
| Focus
| SetActiveStyles
| SetInactiveStyles
| HandleKeydown (event : KeyboardEvent)
| SelectViaInteraction
| AssignDisabled (value : any)
| AssignMultiple (b : bool)
| AssignValue (v : any).

Definition body (m : member) (this : ref) (p : Process) (o : t) : t :=
  match m with
  | Select => select this o
  | Deselect => deselect this o
  | Focus => o
  | SetActiveStyles => setActiveStyles o
  | SetInactiveStyles => setInactiveStyles o
  | HandleKeydown event => _handleKeydown this p event o
  | SelectViaInteraction => _selectViaInteraction this p o
  | AssignDisabled value => disabled_setter value o
  | AssignMultiple b => set_multiple b o
  | AssignValue v => set_value v o
  end.

(** [this.m(...)]: the receiver is updated in place; a reference that
    names no option has nothing to call. *)
Definition invoke (this : ref) (m : member) (p : Process) : Process :=
  {| _uniqueIdCounter := _uniqueIdCounter p;
     optgroups := optgroups p;
     options := alter (body m this p) this (options p) |}.

(** [new Md2Option(group, _element)]: the field initialisers run in
    order, [_id] taking the counter's value and incrementing it; the
    new object's reference is returned. *)
Definition new_Md2Option
    (group : option ref) (_element : ElementRef) (p : Process) : ref * Process :=
  let n := _uniqueIdCounter p in
  let o := {| _selected := false; _active := false; _disabled := false;
              _id := "md2-option-" +:+ Number_toString n;
              multiple := false; value := undefined;
              onSelectionChange := [];
              group := group; _element := _element |} in
  (length (options p),
   {| _uniqueIdCounter := incr n;
      optgroups := optgroups p;
      options := options p ++ [o] |}).

(** Modelled from the spec: creating an optgroup with a given flag; the
    class [Md2Optgroup] is not among the sources. *)
Definition new_Md2Optgroup (disabled : bool) (p : Process) : ref * Process :=
  (length (optgroups p),
   {| _uniqueIdCounter := _uniqueIdCounter p;
      optgroups := optgroups p ++ [Md2Optgroup.mk disabled];
      options := options p |}).

(** Modelled from the spec: an optgroup "disables/enables a set of
    options as a group", by a change of its flag; the setter is not
    among the sources. *)
Definition optgroup_set_disabled (g : ref) (disabled : bool) (p : Process) : Process :=
  {| _uniqueIdCounter := _uniqueIdCounter p;
     optgroups := <[g := Md2Optgroup.mk disabled]> (optgroups p);
     options := options p |}.

(** *** Emitted events as objects

    The events in an emitter's sequence are the objects that were
    emitted: the [i]-th one is the object the [i]-th [emit] passed on. *)

(** The [i]-th event option [this] has emitted. *)
Definition emitted (this : ref) (i : nat) (p : Process)
    : option Md2OptionSelectionChange :=
  o ← options p !! this; onSelectionChange o !! i.

(** A holder of the [i]-th event emitted by [this] assigns one of its
    fields. No member of [Md2Option] does so; the class declaration
    lets any receiver of the event do it. *)
Definition assign_event
    (this : ref) (i : nat) (w : field_write) (p : Process) : Process :=
  {| _uniqueIdCounter := _uniqueIdCounter p;
     optgroups := optgroups p;
     options :=
       alter (fun o => set_onSelectionChange
                         (alter (write_field w) i (onSelectionChange o)) o)
             this (options p) |}.

(** The spec's reading of "immutable record": an event, once emitted,
    reads the same whatever is assigned to it. *)
Definition events_immutable : Prop :=
  forall this i w p, emitted this i (assign_event this i w p) = emitted this i p.

(** *** Runs of a process *)

(** What the code of this module, and of the optgroups it reads, does in
    a process: constructor calls, calls of an option's members, and
    changes of an optgroup. Assignments to an emitted event by one of
    its receivers ([assign_event]) are not among them. *)
Inductive action :=
| New (group : option ref) (_element : ElementRef)
| Call (this : ref) (m : member)
| NewOptgroup (disabled : bool)
| OptgroupDisabled (g : ref) (disabled : bool).

Definition step (a : action) (p : Process) : Process :=
  match a with
  | New group _element => (new_Md2Option group _element p).2
  | Call this m => invoke this m p
  | NewOptgroup d => (new_Md2Optgroup d p).2
  | OptgroupDisabled g d => optgroup_set_disabled g d p
  end.

Fixpoint run (acts : list action) (p : Process) : Process :=
  match acts with
  | [] => p
  | a :: acts => run acts (step a p)
  end.

(** The number an id was built from, when it is one of this module's. *)
Definition id_number (s : string) (n : N) : Prop :=
  s = "md2-option-" +:+ Number_toString n.

(** How many options a list of actions creates. *)
Fixpoint creations (acts : list action) : N :=
  match acts with
  | [] => 0
  | New _ _ :: acts => 1 + creations acts
  | _ :: acts => creations acts
  end.

(** In state [p], the options at [a] and [b] carry distinct ids, built
    from numbers of which [b]'s is the larger. *)
Definition distinct_increasing_ids (p : Process) (a b : ref) : Prop :=
  exists oa ob na nb,
    options p !! a = Some oa /\ options p !! b = Some ob /\
    id_number (id oa) na /\ id_number (id ob) nb /\
    na < nb /\ id oa <> id ob.

(** *** What a call is expected to emit

    The spec's account of event emission, to be compared with the
    methods above: a call selects or deselects the option when it is
    [select()], [deselect()], or an interaction that gets past the
    [disabled] guard, from a click or from the ENTER or SPACE key. *)
Definition selects_or_deselects (p : Process) (o : t) (m : member) : bool :=
  match m with
  | Select | Deselect => true
  | SelectViaInteraction => negb (disabled p o)
  | HandleKeydown event =>
      ((keyCode event =? ENTER) || (keyCode event =? SPACE)) && negb (disabled p o)
  | _ => false
  end.

(** Whether a call stands for the user: the interaction path does, the
    programmatic [select()] and [deselect()] do not. *)
Definition from_user (m : member) : bool :=
  match m with
  | SelectViaInteraction | HandleKeydown _ => true
  | _ => false
  end.

(** *** Invariants of the store *)


(** The counter and the ids follow the order of creation: the option
    created [i]-th (from 0) carries the number [i], and the counter the
    number of options created, both capped at 2^53. *)
Definition ids_numbered (p : Process) : Prop :=
  _uniqueIdCounter p =
    N.min (N.of_nat (length (options p))) (MAX_SAFE_INTEGER + 1) /\
  forall i o, options p !! i = Some o ->
              id_number (id o) (N.min (N.of_nat i) (MAX_SAFE_INTEGER + 1)).

(** An action that is neither [deselect()] on [this] nor switching
    [this] to multiple selection. *)
Definition keeps_selection (this : ref) (a : action) : Prop :=
  forall m, a = Call this m -> m <> Deselect /\ m <> AssignMultiple true.

(** ** Calls and the store *)

Implicit Types (p : Process) (o : t) (this r : ref) (m : member).

Lemma invoke_lookup this m p o :
  options p !! this = Some o ->
  options (invoke this m p) !! this = Some (body m this p o).
Proof.
  intros Ho. unfold invoke. cbn [options].
  by rewrite list_lookup_alter_eq, Ho.
Qed.

Lemma invoke_lookup_ne this m p r :
  r <> this -> options (invoke this m p) !! r = options p !! r.
Proof.
  intros Hr. unfold invoke. cbn [options].
  by rewrite list_lookup_alter_ne.
Qed.

(** A call whose body leaves the receiver as it was leaves the process
    as it was. *)
Lemma invoke_unchanged this m p :
  (forall o, options p !! this = Some o -> body m this p o = o) ->
  invoke this m p = p.
Proof.
  intros Hbody. destruct p as [c gs os]. unfold invoke. cbn in *. f_equal.
  apply list_eq. intros i. destruct (decide (this = i)) as [<-|Hne].
  - rewrite list_lookup_alter_eq. destruct (os !! this) as [o|] eqn:Ho; [|done].
    cbn. f_equal. by apply Hbody.
  - by rewrite list_lookup_alter_ne.
Qed.

(** ** The [disabled] getter *)

(** C1: reading [disabled] gives true whenever the option's owning group
    exists and that group's [disabled] is true, whatever the option's own
    [_disabled] flag is; when there is no group, or the group is not
    disabled, it gives the option's own flag. *)
Theorem disabled_group_or_own_flag p o :
  (forall g, owning_group p o = Some g -> Md2Optgroup.disabled g = true ->
             disabled p o = true) /\
  (owning_group p o = None -> disabled p o = _disabled o) /\
  (forall g, owning_group p o = Some g -> Md2Optgroup.disabled g = false ->
             disabled p o = _disabled o).
Proof.
  unfold disabled. repeat split.
  - by intros g -> ->.
  - by intros ->.
  - by intros g -> ->.
Qed.

(** ** Selection through interaction *)

(** What [_selectViaInteraction] does once its guard has let it in. *)
Lemma _selectViaInteraction_enabled this p o :
  disabled p o = false ->
  _selectViaInteraction this p o =
  set_onSelectionChange
    (onSelectionChange o ++ [{| source := this; isUserInput := true |}])
    (set_selected (if multiple o then negb (_selected o) else true) o).
Proof. unfold _selectViaInteraction. by intros ->. Qed.

Lemma _selectViaInteraction_disabled this p o :
  disabled p o = true -> _selectViaInteraction this p o = o.
Proof. unfold _selectViaInteraction. by intros ->. Qed.

(** C2: on an option whose [disabled] reads false and whose [multiple] is
    false, [_selectViaInteraction()] (the click path) leaves
    [selected === true] whatever [selected] was before, and emits one
    event, with [isUserInput === true]. *)
Theorem click_single_selects this p o :
  options p !! this = Some o ->
  disabled p o = false ->
  multiple o = false ->
  exists o',
    options (invoke this SelectViaInteraction p) !! this = Some o' /\
    selected o' = true /\
    onSelectionChange o' =
      onSelectionChange o ++ [{| source := this; isUserInput := true |}].
Proof.
  intros Ho Hd Hm. eexists. split; [by apply invoke_lookup|].
  cbn. rewrite _selectViaInteraction_enabled by done. by rewrite Hm.
Qed.

(** C3: on an option whose [disabled] reads false and whose [multiple] is
    true, [_selectViaInteraction()] negates [selected]; two calls in a
    row bring [selected] back to what it was. *)
Theorem click_multiple_toggles this p o :
  options p !! this = Some o ->
  disabled p o = false ->
  multiple o = true ->
  let p1 := invoke this SelectViaInteraction p in
  let p2 := invoke this SelectViaInteraction p1 in
  exists o1 o2,
    options p1 !! this = Some o1 /\ selected o1 = negb (selected o) /\
    options p2 !! this = Some o2 /\ selected o2 = selected o.
Proof.
  intros Ho Hd Hm p1 p2.
  pose proof (invoke_lookup this SelectViaInteraction p o Ho) as H1.
  fold p1 in H1.
  pose proof (invoke_lookup this SelectViaInteraction p1 _ H1) as H2.
  fold p2 in H2.
  do 2 eexists. split; [exact H1|]. split; [|split; [exact H2|]].
  - cbn. rewrite _selectViaInteraction_enabled by done. by rewrite Hm.
  - cbn. rewrite (_selectViaInteraction_enabled this p o) by done.
    rewrite _selectViaInteraction_enabled.
    + cbn. rewrite Hm. unfold selected. by destruct (_selected o).
    + by rewrite <- Hd.
Qed.

(** C4: on an option whose [disabled] reads true, [_selectViaInteraction()],
    whether reached by a click or by a key press, changes nothing:
    [selected], every other field and the events emitted so far stay as
    they were, so no event is emitted. *)
Theorem interaction_disabled_noop this p o :
  options p !! this = Some o ->
  disabled p o = true ->
  invoke this SelectViaInteraction p = p /\
  forall event, invoke this (HandleKeydown event) p = p.
Proof.
  intros Ho Hd. split; [|intros event]; apply invoke_unchanged; intros o0 Ho0;
    assert (o0 = o) as -> by congruence; cbn.
  - by apply _selectViaInteraction_disabled.
  - unfold _handleKeydown. rewrite _selectViaInteraction_disabled by done.
    by destruct (_ || _).
Qed.

(** ** Events *)

(** The events a call appends to the receiver's emitter. *)
Lemma body_emits m this p o :
  onSelectionChange (body m this p o) =
  onSelectionChange o ++
    (if selects_or_deselects p o m
     then [{| source := this; isUserInput := from_user m |}] else []).
Proof.
  destruct m; cbn; try (by rewrite app_nil_r); try done.
  - unfold _handleKeydown, _selectViaInteraction.
    destruct (_ || _); cbn; [|by rewrite app_nil_r].
    destruct (disabled p o); cbn; [by rewrite app_nil_r|done].
  - unfold _selectViaInteraction.
    destruct (disabled p o); cbn; [by rewrite app_nil_r|done].
Qed.

(** No call changes the receiver's id. *)
Lemma body_id m this p o : _id (body m this p o) = _id o.
Proof.
  destruct m; cbn; try done.
  - unfold _handleKeydown, _selectViaInteraction.
    by destruct (_ || _), (disabled p o).
  - unfold _selectViaInteraction. by destruct (disabled p o).
Qed.

(** No step of a process removes an option, changes its id, or removes
    or rewrites an event it has emitted. *)
Lemma step_keeps a p r o :
  options p !! r = Some o ->
  exists o', options (step a p) !! r = Some o' /\ _id o' = _id o /\
             onSelectionChange o `prefix_of` onSelectionChange o'.
Proof.
  intros Ho. destruct a as [g e|this m|d|g d]; cbn [step].
  - exists o. split; [by apply lookup_app_l_Some|done].
  - destruct (decide (r = this)) as [->|Hne].
    + eexists. split; [by apply invoke_lookup|].
      rewrite body_id, body_emits. split; [done|]. by apply prefix_app_r.
    + exists o. split; [by rewrite invoke_lookup_ne|done].
  - by exists o.
  - by exists o.
Qed.

Lemma run_keeps acts p r o :
  options p !! r = Some o ->
  exists o', options (run acts p) !! r = Some o' /\ _id o' = _id o /\
             onSelectionChange o `prefix_of` onSelectionChange o'.
Proof.
  revert p o. induction acts as [|a acts IH]; intros p o Ho; cbn.
  - by exists o.
  - destruct (step_keeps a p r o Ho) as (o1 & Ho1 & Hid1 & Hpre1).
    destruct (IH _ _ Ho1) as (o2 & Ho2 & Hid2 & Hpre2).
    exists o2. split; [done|]. split; [congruence|by etrans].
Qed.

(** C5: an event reaching [onSelectionChange] carries
    [isUserInput === true] when [_selectViaInteraction()] produced it,
    called from a click or from [_handleKeydown], and
    [isUserInput === false] when a programmatic [select()] or
    [deselect()] did. *)
Theorem isUserInput_matches_path this p o :
  options p !! this = Some o ->
  (exists o', options (invoke this SelectViaInteraction p) !! this = Some o' /\
     onSelectionChange o' = onSelectionChange o ++
       (if disabled p o then []
        else [{| source := this; isUserInput := true |}])) /\
  (forall event,
   exists o', options (invoke this (HandleKeydown event) p) !! this = Some o' /\
     onSelectionChange o' = onSelectionChange o ++
       (if ((keyCode event =? ENTER) || (keyCode event =? SPACE))
           && negb (disabled p o)
        then [{| source := this; isUserInput := true |}] else [])) /\
  (exists o', options (invoke this Select p) !! this = Some o' /\
     onSelectionChange o' =
       onSelectionChange o ++ [{| source := this; isUserInput := false |}]) /\
  (exists o', options (invoke this Deselect p) !! this = Some o' /\
     onSelectionChange o' =
       onSelectionChange o ++ [{| source := this; isUserInput := false |}]).
Proof.
  intros Ho. repeat split; [|intros event| |];
    (eexists; split; [by apply invoke_lookup|]); rewrite body_emits; cbn;
    try done.
  by destruct (disabled p o).
Qed.

(** C6: [select()] sets [selected] to true and [deselect()] sets it to
    false with no condition, so also on an option whose [disabled] reads
    true and on one whose flag already has that value; each call emits an
    event with [isUserInput === false]. *)
Theorem select_deselect_unconditional this p o :
  options p !! this = Some o ->
  (exists o', options (invoke this Select p) !! this = Some o' /\
     selected o' = true /\
     onSelectionChange o' =
       onSelectionChange o ++ [{| source := this; isUserInput := false |}]) /\
  (exists o', options (invoke this Deselect p) !! this = Some o' /\
     selected o' = false /\
     onSelectionChange o' =
       onSelectionChange o ++ [{| source := this; isUserInput := false |}]).
Proof.
  intros Ho. split; (eexists; split; [by apply invoke_lookup|]); by cbn.
Qed.

(** C8: [_handleKeydown(event)] runs [_selectViaInteraction] exactly when
    [event.keyCode] is ENTER or SPACE; for any other key code it leaves
    the option, and everything else, as it was and emits nothing. *)
Theorem keydown_enter_or_space this p event :
  (keyCode event = ENTER \/ keyCode event = SPACE ->
   invoke this (HandleKeydown event) p = invoke this SelectViaInteraction p) /\
  (keyCode event <> ENTER -> keyCode event <> SPACE ->
   invoke this (HandleKeydown event) p = p).
Proof.
  split.
  - intros Hkey. unfold invoke. f_equal. apply list_alter_ext; [|done].
    intros o _. cbn. unfold _handleKeydown.
    destruct Hkey as [->| ->]; rewrite N.eqb_refl; [done|].
    by rewrite orb_true_r.
  - intros HE HS. apply invoke_unchanged. intros o _. cbn.
    unfold _handleKeydown.
    apply N.eqb_neq in HE, HS. by rewrite HE, HS.
Qed.

(** C9, as the code has it: an event is a record of the emitting option
    and of [isUserInput] that no member of [Md2Option] writes once it is
    emitted (its fields are public and writable, so it is not
    immutable), and it is emitted once per selection or deselection: a
    call of [select()], of [deselect()] or of an interaction that passes
    the guard appends exactly one event to the option's emitter, any
    other call appends none, no call touches the emitter of another
    option, and along any run of constructor calls, member calls and
    optgroup changes the events already emitted stay, unchanged, at the
    head of the emitter's sequence. *)
Theorem one_event_per_selection this p o m :
  options p !! this = Some o ->
  (exists o', options (invoke this m p) !! this = Some o' /\
     if selects_or_deselects p o m
     then exists isUserInput,
            onSelectionChange o' =
              onSelectionChange o ++
                [{| source := this; isUserInput := isUserInput |}]
     else onSelectionChange o' = onSelectionChange o) /\
  (forall r, r <> this -> options (invoke this m p) !! r = options p !! r) /\
  (forall acts, exists o',
     options (run acts p) !! this = Some o' /\
     onSelectionChange o `prefix_of` onSelectionChange o').
Proof.
  intros Ho. split; [|split].
  - eexists. split; [by apply invoke_lookup|]. rewrite body_emits.
    destruct (selects_or_deselects p o m); [by eexists|by rewrite app_nil_r].
  - intros r Hr. by apply invoke_lookup_ne.
  - intros acts. destruct (run_keeps acts p this o Ho) as (o' & ? & _ & ?).
    by exists o'.
Qed.

(** ** Activation *)

(** C10: [setActiveStyles()] and [setInactiveStyles()] change the
    [active] flag only, to true and to false: [selected], [disabled],
    [multiple], [value] and [id], and every other field, option and
    optgroup, are as before, and neither call emits an event. *)
Theorem active_styles_only_active this p o :
  options p !! this = Some o ->
  (let p' := invoke this SetActiveStyles p in
   exists o',
     options p' !! this = Some o' /\ active o' = true /\
     selected o' = selected o /\ disabled p' o' = disabled p o /\
     multiple o' = multiple o /\ value o' = value o /\ id o' = id o /\
     onSelectionChange o' = onSelectionChange o /\
     _disabled o' = _disabled o /\ group o' = group o /\
     _element o' = _element o /\
     (forall r, r <> this -> options p' !! r = options p !! r) /\
     optgroups p' = optgroups p /\
     _uniqueIdCounter p' = _uniqueIdCounter p) /\
  (let p' := invoke this SetInactiveStyles p in
   exists o',
     options p' !! this = Some o' /\ active o' = false /\
     selected o' = selected o /\ disabled p' o' = disabled p o /\
     multiple o' = multiple o /\ value o' = value o /\ id o' = id o /\
     onSelectionChange o' = onSelectionChange o /\
     _disabled o' = _disabled o /\ group o' = group o /\
     _element o' = _element o /\
     (forall r, r <> this -> options p' !! r = options p !! r) /\
     optgroups p' = optgroups p /\
     _uniqueIdCounter p' = _uniqueIdCounter p).
Proof.
  intros Ho. split; intros p'; (eexists; split; [by apply invoke_lookup|]);
    repeat split; try done; intros r Hr; by apply invoke_lookup_ne.
Qed.

(** ** Unique ids *)

Lemma MAX_SAFE_INTEGER_value : MAX_SAFE_INTEGER = 9007199254740991.
Proof. reflexivity. Qed.

Lemma incr_safe x : x <= MAX_SAFE_INTEGER -> incr x = x + 1.
Proof. unfold incr. intros Hx. by apply N.leb_le in Hx as ->. Qed.

(** On the values a counter takes, [x++] adds one until 2^53 and stays
    there. *)
Lemma incr_min x :
  x <= MAX_SAFE_INTEGER + 1 -> incr x = N.min (x + 1) (MAX_SAFE_INTEGER + 1).
Proof.
  unfold incr. rewrite MAX_SAFE_INTEGER_value. intros Hx.
  destruct (N.leb_spec x 9007199254740991); lia.
Qed.

Lemma Number_toString_inj n n' :
  Number_toString n = Number_toString n' -> n = n'.
Proof.
  unfold Number_toString. intros Heq.
  apply (f_equal NilEmpty.uint_of_string) in Heq.
  rewrite !NilEmpty.usu in Heq. injection Heq as Heq.
  by apply DecimalN.Unsigned.to_uint_inj.
Qed.

Lemma id_number_inj s n n' : id_number s n -> id_number s n' -> n = n'.
Proof.
  unfold id_number. intros -> Heq. apply Number_toString_inj.
  by injection Heq.
Qed.

(** The option a constructor call creates: it sits at the reference
    returned, and its id is built from the counter's value at the call. *)
Lemma new_Md2Option_lookup g e p :
  exists o, options (new_Md2Option g e p).2 !! (new_Md2Option g e p).1 = Some o /\
            id_number (id o) (_uniqueIdCounter p).
Proof. eexists. split; [by apply list_lookup_middle|done]. Qed.

(** The counter after a run, in terms of the options created in it. *)
Lemma run_counter acts p :
  _uniqueIdCounter p <= MAX_SAFE_INTEGER + 1 ->
  _uniqueIdCounter (run acts p) =
  N.min (_uniqueIdCounter p + creations acts) (MAX_SAFE_INTEGER + 1).
Proof.
  revert p. induction acts as [|a acts IH]; intros p Hp.
  - cbn [run creations]. lia.
  - cbn [run]. destruct a as [g e|this m|d|g d]; cbn [creations];
      rewrite IH; cbn [step new_Md2Option new_Md2Optgroup invoke
                       optgroup_set_disabled snd _uniqueIdCounter];
      try done.
    + rewrite incr_min by done. lia.
    + rewrite incr_min by done. lia.
Qed.

(** Two options created in a state whose counter is still exact. *)
Lemma ids_distinct_increasing_from p gA eA between gB eB :
  _uniqueIdCounter p <= MAX_SAFE_INTEGER ->
  let A := new_Md2Option gA eA p in
  let B := new_Md2Option gB eB (run between A.2) in
  distinct_increasing_ids B.2 A.1 B.1.
Proof.
  intros Hp A B.
  destruct (new_Md2Option_lookup gA eA p) as (oa & Hoa & Hna). fold A in Hoa.
  destruct (run_keeps between _ _ _ Hoa) as (oa' & Hoa' & Hid & _).
  destruct (new_Md2Option_lookup gB eB (run between A.2)) as (ob & Hob & Hnb).
  fold B in Hob.
  assert (_uniqueIdCounter p < _uniqueIdCounter (run between A.2)) as Hlt.
  { rewrite run_counter; subst A; cbn [new_Md2Option snd _uniqueIdCounter];
      rewrite incr_safe by done; lia. }
  exists oa', ob, (_uniqueIdCounter p), (_uniqueIdCounter (run between A.2)).
  assert (id_number (id oa') (_uniqueIdCounter p)) as Hna'.
  { unfold id in *. by rewrite Hid. }
  split; [by apply lookup_app_l_Some|]. repeat split; try done.
  intros Heq. rewrite Heq in Hna'.
  pose proof (id_number_inj _ _ _ Hna' Hnb). lia.
Qed.

(** C7, as the code has it: two options created in the same process
    have distinct ids, [md2-option-N] with the later option's N the
    larger, as long as fewer than 2^53 options were created before the
    earlier of the two. (With [_uniqueIdCounter] a JS number, the
    counter stops moving once it reaches 2^53.) *)
Theorem ids_distinct_increasing before gA eA between gB eB :
  creations before <= MAX_SAFE_INTEGER ->
  let A := new_Md2Option gA eA (run before initial) in
  let B := new_Md2Option gB eB (run between A.2) in
  distinct_increasing_ids B.2 A.1 B.1.
Proof.
  intros Hn. apply ids_distinct_increasing_from.
  rewrite run_counter; cbn [initial _uniqueIdCounter]; lia.
Qed.

(** Once the counter has reached 2^53, every new option gets the id of
    the one before it. *)
Lemma ids_repeat_from p gA eA gB eB :
  _uniqueIdCounter p = MAX_SAFE_INTEGER + 1 ->
  let A := new_Md2Option gA eA p in
  let B := new_Md2Option gB eB (run [] A.2) in
  (exists oa ob,
     options B.2 !! A.1 = Some oa /\ options B.2 !! B.1 = Some ob /\
     A.1 <> B.1 /\ id oa = id ob) /\
  ~ distinct_increasing_ids B.2 A.1 B.1.
Proof.
  intros Hp A B.
  destruct (new_Md2Option_lookup gA eA p) as (oa & Hoa & Hna). fold A in Hoa.
  destruct (new_Md2Option_lookup gB eB (run [] A.2)) as (ob & Hob & Hnb).
  fold B in Hob.
  assert (options B.2 !! A.1 = Some oa) as Hoa' by by apply lookup_app_l_Some.
  assert (id oa = id ob) as Hid.
  { unfold id_number in Hna, Hnb. rewrite Hna, Hnb. do 2 f_equal.
    subst A. cbn [run new_Md2Option snd _uniqueIdCounter].
    rewrite Hp. unfold incr. rewrite MAX_SAFE_INTEGER_value. done. }
  split.
  - exists oa, ob. repeat split; try done.
    subst A B. cbn [run new_Md2Option fst snd options].
    rewrite length_app. cbn [length]. lia.
  - intros (oa0 & ob0 & na & nb & Ha0 & Hb0 & _ & _ & _ & Hne).
    apply Hne. congruence.
Qed.

(** The counter counts the options created since the module was loaded,
    up to 2^53, where it stays. *)
Theorem counter_counts_creations acts :
  _uniqueIdCounter (run acts initial) =
  N.min (creations acts) (MAX_SAFE_INTEGER + 1).
Proof. rewrite run_counter; cbn [initial _uniqueIdCounter]; lia. Qed.

Lemma creations_repeat g e n : creations (repeat (New g e) n) = N.of_nat n.
Proof. induction n as [|n IH]; cbn [repeat creations]; lia. Qed.

(** ** What never changes, and what every event says *)

Lemma body_readonly m this p o :
  group (body m this p o) = group o /\
  _element (body m this p o) = _element o.
Proof.
  destruct m; cbn; try done.
  - unfold _handleKeydown, _selectViaInteraction.
    by destruct (_ || _), (disabled p o).
  - unfold _selectViaInteraction. by destruct (disabled p o).
Qed.

Lemma step_readonly a p r o :
  options p !! r = Some o ->
  exists o', options (step a p) !! r = Some o' /\
             group o' = group o /\ _element o' = _element o.
Proof.
  intros Ho. destruct a as [g e|this m|d|g d]; cbn [step].
  - exists o. split; [by apply lookup_app_l_Some|done].
  - destruct (decide (r = this)) as [->|Hne].
    + eexists. split; [by apply invoke_lookup|]. apply body_readonly.
    + exists o. split; [by rewrite invoke_lookup_ne|done].
  - by exists o.
  - by exists o.
Qed.

(** The id, the group and the host element an option was created with
    stay with it whatever the process does afterwards: no method, and
    nothing done to another object, reassigns them. *)
Theorem creation_fields_stable acts p r o :
  options p !! r = Some o ->
  exists o',
    options (run acts p) !! r = Some o' /\
    id o' = id o /\ group o' = group o /\
    _getHostElement o' = _getHostElement o.
Proof.
  revert p o. induction acts as [|a acts IH]; intros p o Ho; cbn [run].
  - by exists o.
  - destruct (step_keeps a p r o Ho) as (o1 & Ho1 & Hid & _).
    destruct (step_readonly a p r o Ho) as (o1' & Ho1' & Hg & He).
    assert (o1' = o1) as -> by congruence.
    destruct (IH _ _ Ho1) as (o2 & Ho2 & Hid2 & Hg2 & He2).
    exists o2. split; [done|]. unfold id, _getHostElement in *.
    repeat split; congruence.
Qed.




(** No call changes [selected] in silence: when the flag after a call
    differs from the flag before it, the call has emitted an event, from
    this option. *)
Theorem selected_changes_are_announced this m p o :
  options p !! this = Some o ->
  exists o',
    options (invoke this m p) !! this = Some o' /\
    (selected o' <> selected o ->
     exists isUserInput,
       onSelectionChange o' =
         onSelectionChange o ++
           [{| source := this; isUserInput := isUserInput |}]).
Proof.
  intros Ho. eexists. split; [by apply invoke_lookup|].
  rewrite body_emits. intros Hsel.
  destruct (selects_or_deselects p o m) eqn:Hm; [by eexists|].
  exfalso. apply Hsel. unfold selected.
  destruct m; cbn in *; try done.
  - unfold _handleKeydown, _selectViaInteraction.
    destruct (_ || _), (disabled p o); try done.
  - unfold _selectViaInteraction. by destruct (disabled p o).
Qed.

(** ** The ids of a whole store *)

Lemma step_ids_numbered a p : ids_numbered p -> ids_numbered (step a p).
Proof.
  intros [Hc Hids]. destruct a as [g e|this m|d|g d]; cbn [step]; [| |done|done].
  - split.
    + cbn [new_Md2Option snd _uniqueIdCounter options].
      rewrite length_app, incr_min by lia. cbn [length]. lia.
    + cbn [new_Md2Option snd options].
      intros i o [Ho|[Hi Ho]]%lookup_app_Some; [by apply Hids|].
      apply list_lookup_singleton_Some in Ho as [Hi0 <-].
      assert (i = length (options p)) as -> by lia. unfold id. cbn [_id].
      by rewrite <- Hc.
  - split.
    + unfold invoke. cbn [_uniqueIdCounter options]. by rewrite length_alter.
    + intros i o. destruct (decide (i = this)) as [->|Hne].
      * unfold invoke. cbn [options]. rewrite list_lookup_alter_eq.
        intros (o0 & Ho0 & ->)%fmap_Some. unfold id. rewrite body_id.
        by apply Hids.
      * rewrite invoke_lookup_ne by done. apply Hids.
Qed.

Lemma run_ids_numbered acts p : ids_numbered p -> ids_numbered (run acts p).
Proof.
  revert p. induction acts as [|a acts IH]; intros p Hp; cbn [run]; [done|].
  by apply IH, step_ids_numbered.
Qed.

(** The store holds one option per creation; no call adds or removes one. *)
Lemma run_length acts p :
  N.of_nat (length (options (run acts p))) =
  N.of_nat (length (options p)) + creations acts.
Proof.
  revert p. induction acts as [|a acts IH]; intros p; cbn [run creations].
  - lia.
  - destruct a as [g e|this m|d|g d]; rewrite IH; cbn [step]; try done.
    + cbn [new_Md2Option snd options]. rewrite length_app. cbn [length]. lia.
    + unfold invoke. cbn [options]. by rewrite length_alter.
Qed.

(** As long as a process has created no more than 2^53 + 1 options since
    the module was loaded, no two options of its store share an id,
    whatever calls were made in between. *)
Theorem ids_unique_in_store acts :
  creations acts <= MAX_SAFE_INTEGER + 2 ->
  NoDup (id <$> options (run acts initial)).
Proof.
  intros Hn.
  assert (ids_numbered (run acts initial)) as [_ Hids].
  { apply run_ids_numbered. split; [done|]. intros i o Ho. inversion Ho. }
  pose proof (run_length acts initial) as Hlen. cbn [initial options length] in Hlen.
  apply NoDup_alt. intros i j s.
  rewrite !list_lookup_fmap.
  intros (oi & Hoi & ->)%fmap_Some (oj & Hoj & Hs)%fmap_Some.
  pose proof (lookup_lt_Some _ _ _ Hoi) as Hi.
  pose proof (lookup_lt_Some _ _ _ Hoj) as Hj.
  pose proof (Hids _ _ Hoi) as Hni. pose proof (Hids _ _ Hoj) as Hnj.
  rewrite <- Hs in Hnj.
  pose proof (id_number_inj _ _ _ Hni Hnj). lia.
Qed.

(** ** Sequences of calls *)

(** In single selection mode a selected option stays selected through
    anything a process does, clicks and key presses on it included,
    except a call of its [deselect()] or its switch to multiple
    selection. *)
Theorem single_selection_sticks acts this p o :
  options p !! this = Some o ->
  multiple o = false ->
  selected o = true ->
  Forall (keeps_selection this) acts ->
  exists o',
    options (run acts p) !! this = Some o' /\
    multiple o' = false /\ selected o' = true.
Proof.
  intros Ho Hm Hs Hacts. revert p o Ho Hm Hs.
  induction Hacts as [|a acts Ha _ IH]; intros p o Ho Hm Hs; cbn [run].
  - by exists o.
  - destruct a as [g e|r m|d|g d]; cbn [step].
    + apply (IH _ o); [by apply lookup_app_l_Some|done|done].
    + destruct (decide (r = this)) as [->|Hne].
      * destruct (Ha m eq_refl) as [Hd Hmul].
        apply (IH _ (body m this p o)); [by apply invoke_lookup| |].
        -- destruct m as [| | | | |ev| | |[]|]; cbn; try done.
           ++ unfold _handleKeydown, _selectViaInteraction.
              by destruct (_ || _), (disabled p o).
           ++ unfold _selectViaInteraction. by destruct (disabled p o).
        -- unfold selected in *.
           destruct m as [| | | | |ev| | |[]|]; cbn; try done.
           ++ unfold _handleKeydown, _selectViaInteraction.
              destruct (_ || _), (disabled p o); cbn; try done; by rewrite Hm.
           ++ unfold _selectViaInteraction.
              destruct (disabled p o); cbn; try done; by rewrite Hm.
      * apply (IH _ o); [by rewrite invoke_lookup_ne|done|done].
    + by apply (IH _ o).
    + by apply (IH _ o).
Qed.

(** In multiple selection mode, [n] clicks on an option that does not
    read disabled emit [n] user events and leave [selected] as it was
    when [n] is even, negated when [n] is odd. *)
Theorem clicks_toggle_by_parity n this p o :
  options p !! this = Some o ->
  disabled p o = false ->
  multiple o = true ->
  exists o',
    options (run (repeat (Call this SelectViaInteraction) n) p) !! this = Some o' /\
    selected o' = (if Nat.even n then selected o else negb (selected o)) /\
    onSelectionChange o' =
      onSelectionChange o ++ repeat {| source := this; isUserInput := true |} n.
Proof.
  revert p o. induction n as [|n IH]; intros p o Ho Hd Hm.
  - exists o. cbn [repeat run Nat.even]. by rewrite app_nil_r.
  - cbn [repeat run step].
    pose proof (invoke_lookup this SelectViaInteraction p o Ho) as Ho1.
    cbn [body] in Ho1. rewrite _selectViaInteraction_enabled in Ho1 by done.
    rewrite Hm in Ho1.
    destruct (IH _ _ Ho1) as (o' & Ho' & Hs' & He'); [by rewrite <- Hd|done|].
    exists o'. split; [done|]. split.
    + rewrite Hs', Nat.even_succ, <- Nat.negb_even. unfold selected. cbn.
      by destruct (Nat.even n), (_selected o).
    + rewrite He'. cbn. by rewrite <- app_assoc.
Qed.

(** After any sequence of [select()] and [deselect()] calls on an
    option, [selected] is what the last call asked for, and the emitter
    has received one event per call, none of them flagged as user input. *)
Theorem programmatic_calls_last_wins ms this p o :
  options p !! this = Some o ->
  Forall (fun m => m = Select \/ m = Deselect) ms ->
  exists o',
    options (run (Call this <$> ms) p) !! this = Some o' /\
    selected o' =
      match last ms with
      | Some Select => true
      | Some _ => false
      | None => selected o
      end /\
    onSelectionChange o' =
      onSelectionChange o ++
        repeat {| source := this; isUserInput := false |} (length ms).
Proof.
  intros Ho Hms. revert p o Ho.
  induction Hms as [|m ms Hm _ IH]; intros p o Ho.
  - exists o. cbn. by rewrite app_nil_r.
  - cbn [fmap list_fmap run step].
    pose proof (invoke_lookup this m p o Ho) as Ho1.
    destruct (IH _ _ Ho1) as (o' & Ho' & Hs' & He'). clear IH.
    exists o'. split; [exact Ho'|]. split.
    + rewrite Hs'. destruct ms as [|m' ms]; cbn [last].
      * by destruct Hm as [-> | ->].
      * destruct (last (m' :: ms)) eqn:Hlast; [done|].
        by apply last_None in Hlast.
    + rewrite He'. destruct Hm as [-> | ->]; cbn; by rewrite <- app_assoc.
Qed.

(** ** Disabling, tabbing and creating *)

(** Assigning [disabled] is read back through [coerceBooleanProperty]
    when the option has no group or its group is not disabled; in a
    disabled group the option goes on reading disabled whatever is
    assigned. The assignment neither changes [selected] nor emits. *)
Theorem disabled_assignment_reads_back this value p o :
  options p !! this = Some o ->
  let p' := invoke this (AssignDisabled value) p in
  exists o',
    options p' !! this = Some o' /\
    (forall g, owning_group p o = Some g -> Md2Optgroup.disabled g = true ->
               disabled p' o' = true) /\
    (owning_group p o = None -> disabled p' o' = coerceBooleanProperty value) /\
    (forall g, owning_group p o = Some g -> Md2Optgroup.disabled g = false ->
               disabled p' o' = coerceBooleanProperty value) /\
    selected o' = selected o /\
    onSelectionChange o' = onSelectionChange o.
Proof.
  intros Ho p'. eexists. split; [by apply invoke_lookup|].
  unfold disabled, owning_group. cbn. repeat split.
  - intros g Hg Hd. unfold owning_group in Hg. by rewrite Hg, Hd.
  - intros Hg. unfold owning_group in Hg. by rewrite Hg.
  - intros g Hg Hd. unfold owning_group in Hg. by rewrite Hg, Hd.
Qed.

(** The tab index tells whether interaction works: it is "0" exactly on
    an option a click selects (emitting a user event), and "-1" exactly
    on one that clicks and key presses leave as it is. *)
Theorem tabindex_tells_interaction this p o :
  options p !! this = Some o ->
  (_getTabIndex p o = "0"%string /\
   exists o',
     options (invoke this SelectViaInteraction p) !! this = Some o' /\
     onSelectionChange o' =
       onSelectionChange o ++ [{| source := this; isUserInput := true |}]) \/
  (_getTabIndex p o = "-1"%string /\
   invoke this SelectViaInteraction p = p /\
   forall event, invoke this (HandleKeydown event) p = p).
Proof.
  intros Ho. unfold _getTabIndex. destruct (disabled p o) eqn:Hd.
  - right. split; [done|].
    split; [|intros event]; apply invoke_unchanged; intros o0 Ho0;
      assert (o0 = o) as -> by congruence; cbn.
    + by apply _selectViaInteraction_disabled.
    + unfold _handleKeydown. rewrite _selectViaInteraction_disabled by done.
      by destruct (_ || _).
  - left. split; [done|]. eexists. split; [by apply invoke_lookup|].
    cbn. by rewrite _selectViaInteraction_enabled.
Qed.

(** [new Md2Option(group, _element)] returns a reference no option had,
    leaves the options and optgroups there were as they are, and the
    option it creates is unselected, inactive, in single selection mode,
    without value or events, bound to the group and element given, and
    reads disabled exactly when that group is disabled. *)
Theorem new_option_is_fresh g e p :
  let r := (new_Md2Option g e p).1 in
  let p' := (new_Md2Option g e p).2 in
  options p !! r = None /\
  (forall r' o', options p !! r' = Some o' -> options p' !! r' = Some o') /\
  optgroups p' = optgroups p /\
  exists o,
    options p' !! r = Some o /\
    selected o = false /\ active o = false /\ multiple o = false /\
    value o = undefined /\ onSelectionChange o = [] /\
    group o = g /\ _getHostElement o = nativeElement e /\
    (disabled p' o = true <->
     exists og, owning_group p' o = Some og /\ Md2Optgroup.disabled og = true).
Proof.
  intros r p'. split; [by apply lookup_ge_None_2|].
  split; [intros r' o' Ho'; by apply lookup_app_l_Some|]. split; [done|].
  eexists. split; [by apply list_lookup_middle|]. repeat split; try done.
  - unfold disabled. cbn [_disabled]. rewrite orb_false_r.
    destruct (owning_group _ _) as [og|]; [|done]. intros Hd. by exists og.
  - intros (og & Hog & Hd). unfold disabled. by rewrite Hog, Hd.
Qed.

End Md2Option.

(** ** The properties at work on the example host *)

#[local] Existing Instance example_host.

(** The first three ids of a process, untouched by the calls made in
    between. *)
Example first_ids :
  let e : ElementRef := {| nativeElement := tt |} in
  let p := run [New None e; Call 0 Select; New None e; NewOptgroup true;
                New (Some 0%nat) e; Call 1 SelectViaInteraction] initial in
  id <$> options p = ["md2-option-0"; "md2-option-1"; "md2-option-2"]%string.
Proof. reflexivity. Qed.

Example Number_toString_2_53 :
  Number_toString (MAX_SAFE_INTEGER + 1) = "9007199254740992"%string /\
  incr (MAX_SAFE_INTEGER + 1) = MAX_SAFE_INTEGER + 1 /\
  incr MAX_SAFE_INTEGER = MAX_SAFE_INTEGER + 1.
Proof. repeat split. Qed.

(** An option of a disabled optgroup reads disabled although its own
    flag is off; an option without a group reads its own flag. *)
Lemma disabled_group_or_own_flag_witness :
  let e : ElementRef := {| nativeElement := tt |} in
  let p := run [NewOptgroup true; New (Some 0%nat) e; New None e] initial in
  exists o0 o1,
    options p !! 0%nat = Some o0 /\ options p !! 1%nat = Some o1 /\
    _disabled o0 = false /\ disabled p o0 = true /\
    disabled p o1 = _disabled o1.
Proof.
  intros e p. do 2 eexists. split; [reflexivity|]. split; [reflexivity|].
  split; [reflexivity|]. split.
  - eapply (proj1 (disabled_group_or_own_flag p _)); reflexivity.
  - apply (proj1 (proj2 (disabled_group_or_own_flag p _))). reflexivity.
Defined.

(** A click on a fresh option selects it and emits a user event. *)
Lemma click_single_selects_witness :
  let e : ElementRef := {| nativeElement := tt |} in
  let p := run [New None e] initial in
  exists o o',
    options p !! 0%nat = Some o /\ disabled p o = false /\ multiple o = false /\
    options (invoke 0 SelectViaInteraction p) !! 0%nat = Some o' /\
    selected o' = true /\
    onSelectionChange o' =
      onSelectionChange o ++ [{| source := 0%nat; isUserInput := true |}].
Proof.
  intros e p.
  destruct (click_single_selects 0 p _ eq_refl eq_refl eq_refl)
    as (o' & Ho' & Hsel & Hev).
  eexists _, o'. repeat split; [exact Ho'|exact Hsel|exact Hev].
Defined.

(** Two clicks on a selected option of a multiple select. *)
Lemma click_multiple_toggles_witness :
  let e : ElementRef := {| nativeElement := tt |} in
  let p := run [New None e; Call 0 (AssignMultiple true); Call 0 Select] initial in
  let p1 := invoke 0 SelectViaInteraction p in
  let p2 := invoke 0 SelectViaInteraction p1 in
  exists o o1 o2,
    options p !! 0%nat = Some o /\ selected o = true /\
    options p1 !! 0%nat = Some o1 /\ selected o1 = false /\
    options p2 !! 0%nat = Some o2 /\ selected o2 = true.
Proof.
  intros e p p1 p2.
  destruct (click_multiple_toggles 0 p _ eq_refl eq_refl eq_refl)
    as (o1 & o2 & H1 & Hs1 & H2 & Hs2).
  eexists _, o1, o2. repeat split; [exact H1|exact Hs1|exact H2|exact Hs2].
Defined.

(** A click and a press of ENTER on an option of a disabled optgroup. *)
Lemma interaction_disabled_noop_witness :
  let e : ElementRef := {| nativeElement := tt |} in
  let p := run [NewOptgroup true; New (Some 0%nat) e] initial in
  invoke 0 SelectViaInteraction p = p /\
  invoke 0 (HandleKeydown {| keyCode := 13 |}) p = p.
Proof.
  intros e p.
  destruct (interaction_disabled_noop 0 p _ eq_refl eq_refl) as [Hclick Hkey].
  split; [exact Hclick|exact (Hkey _)].
Defined.

(** The events of a click, of a press of SPACE, and of [select()]. *)
Lemma isUserInput_matches_path_witness :
  let e : ElementRef := {| nativeElement := tt |} in
  let p := run [New None e] initial in
  exists o1 o2 o3,
    options (invoke 0 SelectViaInteraction p) !! 0%nat = Some o1 /\
    onSelectionChange o1 = [{| source := 0%nat; isUserInput := true |}] /\
    options (invoke 0 (HandleKeydown {| keyCode := 32 |}) p) !! 0%nat = Some o2 /\
    onSelectionChange o2 = [{| source := 0%nat; isUserInput := true |}] /\
    options (invoke 0 Select p) !! 0%nat = Some o3 /\
    onSelectionChange o3 = [{| source := 0%nat; isUserInput := false |}].
Proof.
  intros e p.
  destruct (isUserInput_matches_path 0 p _ eq_refl)
    as ((o1 & H1 & E1) & Hkey & (o3 & H3 & E3) & _).
  destruct (Hkey {| keyCode := 32 |}) as (o2 & H2 & E2).
  exists o1, o2, o3.
  repeat split; [exact H1|exact E1|exact H2|exact E2|exact H3|exact E3].
Defined.

(** [select()] on an option of a disabled optgroup, then [deselect()]. *)
Lemma select_deselect_unconditional_witness :
  let e : ElementRef := {| nativeElement := tt |} in
  let p := run [NewOptgroup true; New (Some 0%nat) e] initial in
  exists o o1 o2,
    options p !! 0%nat = Some o /\ disabled p o = true /\
    options (invoke 0 Select p) !! 0%nat = Some o1 /\ selected o1 = true /\
    options (invoke 0 Deselect p) !! 0%nat = Some o2 /\ selected o2 = false.
Proof.
  intros e p.
  destruct (select_deselect_unconditional 0 p _ eq_refl)
    as ((o1 & H1 & S1 & _) & (o2 & H2 & S2 & _)).
  eexists _, o1, o2.
  repeat split; [exact H1|exact S1|exact H2|exact S2].
Defined.

(** ENTER selects; the key code 9 (TAB) does nothing. *)
Lemma keydown_enter_or_space_witness :
  let e : ElementRef := {| nativeElement := tt |} in
  let p := run [New None e] initial in
  invoke 0 (HandleKeydown {| keyCode := 13 |}) p = invoke 0 SelectViaInteraction p /\
  invoke 0 (HandleKeydown {| keyCode := 9 |}) p = p.
Proof.
  intros e p. split.
  - apply (proj1 (keydown_enter_or_space 0 p {| keyCode := 13 |})).
    left. reflexivity.
  - apply (proj2 (keydown_enter_or_space 0 p {| keyCode := 9 |})); discriminate.
Defined.

(** One event for [deselect()], none for [focus()]. *)
Lemma one_event_per_selection_witness :
  let e : ElementRef := {| nativeElement := tt |} in
  let p := run [New None e] initial in
  exists o1 o2,
    options (invoke 0 Deselect p) !! 0%nat = Some o1 /\
    length (onSelectionChange o1) = 1%nat /\
    options (invoke 0 Focus p) !! 0%nat = Some o2 /\
    length (onSelectionChange o2) = 0%nat.
Proof.
  intros e p.
  destruct (one_event_per_selection 0 p _ Deselect eq_refl)
    as ((o1 & H1 & [b E1]) & _).
  destruct (one_event_per_selection 0 p _ Focus eq_refl)
    as ((o2 & H2 & E2) & _).
  exists o1, o2. split; [exact H1|]. split; [by rewrite E1|].
  split; [exact H2|by rewrite E2].
Defined.

(** Activating a selected option. *)
Lemma active_styles_only_active_witness :
  let e : ElementRef := {| nativeElement := tt |} in
  let p := run [New None e; Call 0 Select] initial in
  exists o o',
    options p !! 0%nat = Some o /\
    options (invoke 0 SetActiveStyles p) !! 0%nat = Some o' /\
    active o = false /\ active o' = true /\ selected o' = selected o /\
    onSelectionChange o' = onSelectionChange o.
Proof.
  intros e p.
  destruct (proj1 (active_styles_only_active 0 p _ eq_refl))
    as (o' & H' & Ha & Hs & _ & _ & _ & _ & He & _).
  eexists _, o'. split; [reflexivity|].
  repeat split; [exact H'|exact Ha|exact Hs|exact He].
Defined.

(** Two options with a call in between: [md2-option-0], [md2-option-1]. *)
Lemma ids_distinct_increasing_witness :
  let e : ElementRef := {| nativeElement := tt |} in
  let A := new_Md2Option None e (run [] initial) in
  let B := new_Md2Option None e (run [Call 0 Select] A.2) in
  creations [] <= MAX_SAFE_INTEGER /\ distinct_increasing_ids B.2 A.1 B.1.
Proof.
  intros e A B.
  assert (creations [] <= MAX_SAFE_INTEGER) as Hn by discriminate.
  split; [exact Hn|].
  exact (ids_distinct_increasing [] None e [Call 0 Select] None e Hn).
Defined.

(** C7, as stated, fails: in the process that has created 2^53 options,
    the counter is stuck at 2^53 and the next two options both get the
    id [md2-option-9007199254740992]. *)
Lemma ids_repeat_past_2_53 :
  let e : ElementRef := {| nativeElement := tt |} in
  let before := repeat (New None e) (N.to_nat (MAX_SAFE_INTEGER + 1)) in
  let A := new_Md2Option None e (run before initial) in
  let B := new_Md2Option None e (run [] A.2) in
  creations before = MAX_SAFE_INTEGER + 1 /\
  (exists oa ob,
     options B.2 !! A.1 = Some oa /\ options B.2 !! B.1 = Some ob /\
     A.1 <> B.1 /\ id oa = id ob) /\
  ~ distinct_increasing_ids B.2 A.1 B.1.
Proof.
  intros e before.
  assert (creations before = MAX_SAFE_INTEGER + 1) as Hn.
  { unfold before. rewrite creations_repeat. apply N2Nat.id. }
  clearbody before. intros A B. split; [exact Hn|].
  apply ids_repeat_from.
  rewrite run_counter; cbn [initial _uniqueIdCounter]; rewrite ?Hn; lia.
Qed.

(** Three options and the calls between them: three ids, no two alike. *)
Lemma ids_unique_in_store_witness :
  let e : ElementRef := {| nativeElement := tt |} in
  let acts := [New None e; Call 0 Select; New None e; New None e] in
  creations acts <= MAX_SAFE_INTEGER + 2 /\
  NoDup (id <$> options (run acts initial)).
Proof.
  intros e acts.
  assert (creations acts <= MAX_SAFE_INTEGER + 2) as Hn by discriminate.
  split; [exact Hn|exact (ids_unique_in_store acts Hn)].
Defined.

(** An option of an optgroup, after calls on it and a change of the
    optgroup's flag. *)
Lemma creation_fields_stable_witness :
  let e : ElementRef := {| nativeElement := tt |} in
  let p := run [NewOptgroup false; New (Some 0%nat) e] initial in
  let acts := [Call 0 Select; Call 0 (AssignDisabled (Some true));
               OptgroupDisabled 0 true; Call 0 SetActiveStyles] in
  exists o',
    options (run acts p) !! 0%nat = Some o' /\
    id o' = "md2-option-0"%string /\ group o' = Some 0%nat /\
    _getHostElement o' = tt.
Proof.
  intros e p acts.
  destruct (creation_fields_stable acts p 0 _ eq_refl)
    as (o' & Ho' & Hid & Hg & He).
  exists o'. repeat split; [exact Ho'|exact Hid|exact Hg|exact He].
Defined.


(** [deselect()] on a selected option changes the flag, and says so. *)
Lemma selected_changes_are_announced_witness :
  let e : ElementRef := {| nativeElement := tt |} in
  let p := run [New None e; Call 0 Select] initial in
  exists o o',
    options p !! 0%nat = Some o /\
    options (invoke 0 Deselect p) !! 0%nat = Some o' /\
    selected o' <> selected o /\
    length (onSelectionChange o') = S (length (onSelectionChange o)).
Proof.
  intros e p.
  destruct (selected_changes_are_announced 0 Deselect p _ eq_refl)
    as (o' & Ho' & Hev).
  assert (selected o' = false) as Hs.
  { cbv in Ho'. by injection Ho' as <-. }
  assert (selected o' <> true) as Hne by (rewrite Hs; discriminate).
  eexists _, o'. split; [reflexivity|]. split; [exact Ho'|].
  split; [exact Hne|].
  destruct (Hev Hne) as [b ->]. rewrite length_app. cbn. lia.
Defined.

(** A selected option of a single select, clicked, pressed, disabled and
    activated while another option is deselected. *)
Lemma single_selection_sticks_witness :
  let e : ElementRef := {| nativeElement := tt |} in
  let p := run [New None e; New None e; Call 0 Select] initial in
  let acts := [Call 0 SelectViaInteraction;
               Call 0 (HandleKeydown {| keyCode := 32 |});
               Call 1 Deselect; Call 0 (AssignDisabled (Some true));
               Call 0 SelectViaInteraction; Call 0 SetInactiveStyles] in
  exists o',
    options (run acts p) !! 0%nat = Some o' /\ selected o' = true.
Proof.
  intros e p acts.
  assert (Forall (keeps_selection 0) acts) as Hacts.
  { unfold acts. clear.
    repeat (apply List.Forall_cons;
            [intros m Hm; inversion Hm; split; discriminate|]).
    apply List.Forall_nil. }
  destruct (single_selection_sticks acts 0 p _ eq_refl eq_refl eq_refl Hacts)
    as (o' & Ho' & _ & Hs).
  exists o'. split; [exact Ho'|exact Hs].
Defined.

(** Three clicks on an unselected option of a multiple select. *)
Lemma clicks_toggle_by_parity_witness :
  let e : ElementRef := {| nativeElement := tt |} in
  let p := run [New None e; Call 0 (AssignMultiple true)] initial in
  exists o',
    options (run (repeat (Call 0 SelectViaInteraction) 3) p) !! 0%nat = Some o' /\
    selected o' = true /\
    length (onSelectionChange o') = 3%nat.
Proof.
  intros e p.
  destruct (clicks_toggle_by_parity 3 0 p _ eq_refl eq_refl eq_refl)
    as (o' & Ho' & Hs & He).
  exists o'. split; [exact Ho'|]. split; [exact Hs|]. by rewrite He.
Defined.

(** Assigning [false] to an option of a disabled optgroup, and [true]
    to an option without one. *)
Lemma disabled_assignment_reads_back_witness :
  let e : ElementRef := {| nativeElement := tt |} in
  let p := run [NewOptgroup true; New (Some 0%nat) e; New None e] initial in
  let p0 := invoke 0 (AssignDisabled (Some false)) p in
  let p1 := invoke 1 (AssignDisabled (Some true)) p in
  exists o0 o1,
    options p0 !! 0%nat = Some o0 /\ disabled p0 o0 = true /\
    options p1 !! 1%nat = Some o1 /\ disabled p1 o1 = true.
Proof.
  intros e p p0 p1.
  destruct (@disabled_assignment_reads_back example_host 0 (Some false) p _ eq_refl)
    as (o0 & Ho0 & Hg0 & _).
  destruct (@disabled_assignment_reads_back example_host 1 (Some true) p _ eq_refl)
    as (o1 & Ho1 & _ & Hn1 & _).
  exists o0, o1. split; [exact Ho0|]. split; [exact (Hg0 _ eq_refl eq_refl)|].
  split; [exact Ho1|exact (Hn1 eq_refl)].
Defined.

(** The tab index of a fresh option, and of an option of a disabled
    optgroup. *)
Lemma tabindex_tells_interaction_witness :
  let e : ElementRef := {| nativeElement := tt |} in
  let p := run [NewOptgroup true; New None e; New (Some 0%nat) e] initial in
  exists o0 o1,
    options p !! 0%nat = Some o0 /\ _getTabIndex p o0 = "0"%string /\
    options p !! 1%nat = Some o1 /\ _getTabIndex p o1 = "-1"%string /\
    invoke 1 SelectViaInteraction p = p.
Proof.
  intros e p.
  destruct (tabindex_tells_interaction 1 p _ eq_refl)
    as [[Htab _]|(Htab & Hclick & _)]; [discriminate Htab|].
  eexists _, _. split; [reflexivity|]. split; [reflexivity|].
  split; [reflexivity|]. split; [exact Htab|exact Hclick].
Defined.

(** A second option, created into a disabled optgroup. *)
Lemma new_option_is_fresh_witness :
  let e : ElementRef := {| nativeElement := tt |} in
  let p := run [NewOptgroup true; New None e] initial in
  let r := (new_Md2Option (Some 0%nat) e p).1 in
  let p' := (new_Md2Option (Some 0%nat) e p).2 in
  r = 1%nat /\ options p !! r = None /\
  exists o, options p' !! r = Some o /\ selected o = false /\
            disabled p' o = true.
Proof.
  intros e p r p'.
  destruct (new_option_is_fresh (Some 0%nat) e p)
    as (Hfresh & _ & _ & o & Ho & Hs & _ & _ & _ & _ & _ & _ & Hd).
  split; [reflexivity|]. split; [exact Hfresh|].
  exists o. split; [exact Ho|]. split; [exact Hs|].
  apply Hd. exists (Md2Optgroup.mk true). split; [|reflexivity].
  cbv in Ho. by injection Ho as <-.
Defined.

(** [select()], [deselect()], [select()] on a fresh option. *)
Lemma programmatic_calls_last_wins_witness :
  let e : ElementRef := {| nativeElement := tt |} in
  let p := run [New None e] initial in
  exists o',
    options (run (Call 0 <$> [Select; Deselect; Select]) p) !! 0%nat = Some o' /\
    selected o' = true /\
    length (onSelectionChange o') = 3%nat.
Proof.
  intros e p.
  assert (Forall (fun m => m = Select \/ m = Deselect)
                 [Select; Deselect; Select]) as Hms.
  { apply List.Forall_cons; [by left|].
    apply List.Forall_cons; [by right|].
    apply List.Forall_cons; [by left|]. apply List.Forall_nil. }
  destruct (programmatic_calls_last_wins _ 0 p _ eq_refl Hms)
    as (o' & Ho' & Hs & He).
  exists o'. split; [exact Ho'|]. split; [exact Hs|]. by rewrite He.
Defined.

(** C9, as stated, fails: an event is not immutable. The event that
    [select()] emits reads [isUserInput = false]; after a receiver has
    assigned [event.isUserInput = true], or [event.source = 7], that same
    event reads what was assigned. *)
Lemma emitted_event_rewritten :
  let e : ElementRef := {| nativeElement := tt |} in
  let p := run [New None e; Call 0 Select] initial in
  emitted 0 0 p = Some {| source := 0%nat; isUserInput := false |} /\
  emitted 0 0 (assign_event 0 0 (WriteIsUserInput true) p) =
    Some {| source := 0%nat; isUserInput := true |} /\
  emitted 0 0 (assign_event 0 0 (WriteSource 7) p) =
    Some {| source := 7%nat; isUserInput := false |} /\
  ~ events_immutable.
Proof.
  intros e p. split; [reflexivity|]. split; [reflexivity|].
  split; [reflexivity|].
  intros Himm. specialize (Himm 0%nat 0%nat (WriteIsUserInput true) p).
  discriminate Himm.
Qed.

End Md2Option.
